(** * Smart Plant Buddy: the sensor-log analysis of [dataanalysis.py]

    A shallow embedding of the analysis script: the frame built from the
    exported logs, the ordering by raw timestamp, the classification of
    timestamps, the two branches that assign a datetime to every row, the
    rolling averages and the printed statistics.

    Number systems, as the script meets them:
    - [timestamp] is an integer column (epoch milliseconds or a device
      uptime counter), modelled in [Z];
    - a datetime is pandas' [datetime64[ns]]: an integer count of
      nanoseconds since the Unix epoch, [None] standing for [NaT];
    - [hours_from_start] is a binary64 value (the label printed from it
      depends on its rounding), modelled with [SpecFloat];
    - the four sensor channels are float columns whose arithmetic is taken
      exactly, in [Q], with [None] standing for [NaN] (a field an entry
      does not carry); square roots (standard deviation, correlation) are
      taken in [R].

    Every entry is taken to carry an integer [timestamp]; the other
    fields may be absent from an entry, and a field that no entry carries
    is a column the frame does not have.  Timestamps and datetimes are
    exact integers: the bounds of their 64-bit representation are not
    part of the model. *)

From Stdlib Require Import String Ascii.
From Stdlib Require Import ZArith QArith Qreduction Qround Reals Qreals Lra Lia.
From Stdlib Require Import List Bool Arith.
From Stdlib Require Import Sorted Permutation.
From Stdlib Require Import SpecFloat DecimalString.
From Stdlib Require Lqa.
Import ListNotations.

Local Open Scope Z_scope.

(** ** The exported logs *)

(** One entry of [data['plants']['plant1']['logs']]. *)
Record Entry := mkEntry {
  timestamp : Z;
  soil_raw  : option Q;
  light_raw : option Q;
  temp_c    : option Q;
  hum       : option Q;
  mood      : option string
}.

(** The logs are a dict from record id to entry; [DataFrame.from_dict
    (logs, orient='index')] keeps the dict's insertion order, the id
    becoming the row label. *)
Definition Row : Type := (string * Entry)%type.
Definition Logs : Type := list Row.

Definition ts (r : Row) : Z := timestamp (snd r).

(** ** Generic list helpers *)

Section Insertion.
Context {A : Type}.
Variable before : A -> A -> bool.

(** [x] goes in front of the first element it may stand before. *)
Fixpoint insert_by (x : A) (l : list A) : list A :=
  match l with
  | [] => [x]
  | y :: tl => if before x y then x :: l else y :: insert_by x tl
  end.

Fixpoint sort_by (l : list A) : list A :=
  match l with
  | [] => []
  | x :: tl => insert_by x (sort_by tl)
  end.
End Insertion.

(** ** Line 26: [df.sort_values('timestamp')] *)

(** Rows with equal timestamps are left in the order of the export; the
    properties proved below use only that the result is an ordered
    permutation of the frame. *)
Definition sort_values (df : list Row) : list Row :=
  sort_by (fun a b => ts a <=? ts b) df.

(** ** Lines 29-30: the classifier *)

Definition THRESHOLD : Z := 10000000000.

Definition is_unix_timestamp (r : Row) : bool := ts r >? THRESHOLD.

(** [df['is_unix_timestamp'].any()] *)
Definition any_unix (df : list Row) : bool := existsb is_unix_timestamp df.

(** ** Lines 34-47: rows with a real timestamp exist *)

(** [pd.to_datetime(..., unit='ms')]: milliseconds to nanoseconds. *)
Definition to_datetime_ms (t : Z) : Z := t * 1000000.

(** The column after line 35: [NaT] everywhere but on the classified rows. *)
Definition datetime_unix (df : list Row) : list (option Z) :=
  map (fun r => if is_unix_timestamp r
                then Some (to_datetime_ms (ts r)) else None) df.

(** [Series.ffill()]: a missing cell takes the last valid one before it. *)
Fixpoint ffill_from {A : Type} (last : option A) (col : list (option A))
  : list (option A) :=
  match col with
  | [] => []
  | Some v :: tl => Some v :: ffill_from (Some v) tl
  | None :: tl => last :: ffill_from last tl
  end.

Definition ffill {A : Type} (col : list (option A)) : list (option A) :=
  ffill_from None col.

(** [Series.bfill()]: a missing cell takes the next valid one after it. *)
Fixpoint bfill {A : Type} (col : list (option A)) : list (option A) :=
  match col with
  | [] => []
  | c :: tl =>
      let tl' := bfill tl in
      match c with
      | Some v => Some v :: tl'
      | None => hd None tl' :: tl'
      end
  end.

(** Lines 39-41: the first classified row and its values. *)
Definition first_unix_idx (df : list Row) : option string :=
  option_map fst (find is_unix_timestamp df).



(** Line 44. *)
Definition datetime_filled (df : list Row) : list (option Z) :=
  bfill (ffill (datetime_unix df)).

(** ** Printing numbers and dates *)

Definition digits (n : Z) : string :=
  NilZero.string_of_uint (N.to_uint (Z.to_N n)).

Definition digits2 (n : Z) : string :=
  if n <? 10 then ("0" ++ digits n)%string else digits n.

(** Days since 1970-01-01 to (year, month, day) of the proleptic
    Gregorian calendar. *)
Definition civil_from_days (days : Z) : Z * Z * Z :=
  let z := days + 719468 in
  let era := z / 146097 in
  let doe := z - era * 146097 in
  let yoe := (doe - doe / 1460 + doe / 36524 - doe / 146096) / 365 in
  let doy := doe - (365 * yoe + yoe / 4 - yoe / 100) in
  let mp := (5 * doy + 2) / 153 in
  let d := doy - (153 * mp + 2) / 5 + 1 in
  let m := if mp <? 10 then mp + 3 else mp - 9 in
  let y := yoe + era * 400 + (if m <=? 2 then 1 else 0) in
  (y, m, d).

(** [Timestamp.strftime('%Y-%m-%d %H:%M')] of a nanosecond count. *)
Definition strftime_ymd_hm (ns : Z) : string :=
  let secs := ns / 1000000000 in
  let '(y, m, d) := civil_from_days (secs / 86400) in
  let sod := secs mod 86400 in
  (digits y ++ "-" ++ digits2 m ++ "-" ++ digits2 d ++ " "
     ++ digits2 (sod / 3600) ++ ":" ++ digits2 ((sod mod 3600) / 60))%string.

(** Line 47: [df['datetime'].dt.strftime(...)]; [NaT] gives [NaN]. *)
Definition time_label_dates (dt : list (option Z)) : list (option string) :=
  map (option_map strftime_ymd_hm) dt.

(** binary64: the nearest float to an integer, and the division. *)
Definition float64_of_Z (z : Z) : spec_float :=
  binary_normalize 53 1024 z 0 false.

Definition float64_div : spec_float -> spec_float -> spec_float :=
  SFdiv 53 1024.

(** The integer nearest to [10 * m * 2^e], ties to even. *)
Definition tenths_half_even (m : positive) (e : Z) : Z :=
  match e with
  | Zneg p =>
      let d := 2 ^ Zpos p in
      let q := (10 * Zpos m) / d in
      let r := (10 * Zpos m) mod d in
      match 2 * r ?= d with
      | Lt => q
      | Gt => q + 1
      | Eq => if Z.even q then q else q + 1
      end
  | _ => 10 * Zpos m * 2 ^ e
  end.

(** Python's [f'{x:.1f}']: the decimal with one fractional digit nearest
    to the exact value of the float, ties to even. *)
Definition format_1f (x : spec_float) : string :=
  match x with
  | S754_nan => "nan"
  | S754_infinity s => if s then "-inf" else "inf"
  | S754_zero s => if s then "-0.0" else "0.0"
  | S754_finite s m e =>
      let n := tenths_half_even m e in
      ((if s then "-" else "") ++ digits (n / 10) ++ "." ++ digits (n mod 10))%string
  end.

(** ** Lines 50-53: only device uptime *)

(** [Series.min()] *)
Definition column_min (col : list Z) : option Z :=
  match col with
  | [] => None
  | x :: tl => Some (fold_left Z.min tl x)
  end.

(** Line 50. *)
Definition seconds_from_start (df : list Row) : list Z :=
  match column_min (map ts df) with
  | Some m => map (fun r => ts r - m) df
  | None => []
  end.

(** Line 51: an int64 column divided by [3600] is a float64 column. *)
Definition hours_of_seconds (s : Z) : spec_float :=
  float64_div (float64_of_Z s) (float64_of_Z 3600).

Definition hours_from_start (df : list Row) : list spec_float :=
  map hours_of_seconds (seconds_from_start df).

(** [pd.to_datetime('2025-01-01')], in nanoseconds since the Unix epoch. *)
Definition FIXED_EPOCH : Z := 1735689600 * 1000000000.

(** [pd.to_timedelta(..., unit='s')] *)
Definition to_timedelta_s (s : Z) : Z := s * 1000000000.

(** Line 52. *)
Definition datetime_uptime (df : list Row) : list (option Z) :=
  map (fun s => Some (FIXED_EPOCH + to_timedelta_s s)) (seconds_from_start df).

(** Line 53. *)
Definition hours_label (x : spec_float) : string := (format_1f x ++ "h")%string.

Definition time_label_hours (df : list Row) : list (option string) :=
  map (fun x => Some (hours_label x)) (hours_from_start df).

(** ** The frame and its columns *)

Inductive Channel := Soil | Light | Temp | Hum.

(** [['soil_raw', 'light_raw', 'temp_c', 'hum']] *)
Definition channels : list Channel := [Soil; Light; Temp; Hum].

Definition field (c : Channel) (e : Entry) : option Q :=
  match c with
  | Soil => soil_raw e
  | Light => light_raw e
  | Temp => temp_c e
  | Hum => hum e
  end.

Definition column (df : list Row) (c : Channel) : list (option Q) :=
  map (fun r => field c (snd r)) df.

(** [DataFrame.from_dict] gives the frame one column for each key that
    some entry carries; the cell of an entry that lacks the key is NaN. *)
Definition carries {A : Type} (get : Entry -> option A) (r : Row) : bool :=
  match get (snd r) with
  | Some _ => true
  | None => false
  end.

Definition has_column {A : Type} (get : Entry -> option A) (df : list Row)
  : bool :=
  existsb (carries get) df.

Definition channel_name (c : Channel) : string :=
  match c with
  | Soil => "soil_raw"
  | Light => "light_raw"
  | Temp => "temp_c"
  | Hum => "hum"
  end.

Inductive Exn := KeyError (key : string).

(** A statement either raises or goes on with a value. *)
Definition Try (A : Type) : Type := (Exn + A)%type.

Definition raise {A : Type} (e : Exn) : Try A := inl e.
Definition ret {A : Type} (a : A) : Try A := inr a.

Definition bind {A B : Type} (m : Try A) (k : A -> Try B) : Try B :=
  match m with
  | inl e => inl e
  | inr a => k a
  end.

Notation "x <- m ;; k" := (bind m (fun x => k))
  (at level 61, m at next level, right associativity).

(** [df[name]]: a column the frame does not have is a [KeyError]. *)
Definition getitem (df : list Row) (c : Channel) : Try (list (option Q)) :=
  if has_column (field c) df then ret (column df c)
  else raise (KeyError (channel_name c)).

Definition getitem_mood (df : list Row) : Try (list (option string)) :=
  if has_column mood df then ret (map (fun r => mood (snd r)) df)
  else raise (KeyError "mood").

(** ** Lines 56-59: rolling averages *)

Definition Qsum (l : list Q) : Q := fold_right Qplus 0%Q l.

Definition Qmean (l : list Q) : Q :=
  Qred (Qsum l / inject_Z (Z.of_nat (length l))).

(** The valid observations of a column or window. *)
Fixpoint dropna {A : Type} (col : list (option A)) : list A :=
  match col with
  | [] => []
  | Some v :: tl => v :: dropna tl
  | None :: tl => dropna tl
  end.

(** The mean of a window: of its valid observations, when there are at
    least [min_periods] of them (and at least one). *)
Definition window_mean (min_periods : nat) (w : list (option Q)) : option Q :=
  let obs := dropna w in
  if (Nat.max 1 min_periods <=? length obs)%nat then Some (Qmean obs) else None.

Definition last_n {A : Type} (n : nat) (l : list A) : list A :=
  skipn (length l - n) l.

(** The window slides over the column: each new cell enters it, and the
    oldest one leaves once [window] cells are in. *)
Fixpoint rolling_from (window min_periods : nat)
  (buf col : list (option Q)) : list (option Q) :=
  match col with
  | [] => []
  | x :: tl =>
      let buf' := last_n window (buf ++ [x]) in
      window_mean min_periods buf' :: rolling_from window min_periods buf' tl
  end.

(** [col.rolling(window, min_periods).mean()] *)
Definition rolling_mean (window min_periods : nat) (col : list (option Q))
  : list (option Q) :=
  rolling_from window min_periods [] col.

(** ** Lines 70-79: the printed statistics *)

(** Sum of products of deviations from the means. *)
Definition sum_dev (xs ys : list Q) : Q :=
  let mx := Qmean xs in
  let my := Qmean ys in
  Qsum (map (fun p => ((fst p - mx) * (snd p - my))%Q) (combine xs ys)).

(** [Series.quantile(q)], linear interpolation between the two nearest
    order statistics. *)
Definition quantile (q : Q) (obs : list Q) : option Q :=
  match sort_by Qle_bool obs with
  | [] => None
  | (v0 :: _) as sorted =>
      let pos := (inject_Z (Z.of_nat (length sorted) - 1) * q)%Q in
      let lo := Z.to_nat (Qfloor pos) in
      let frac := (pos - inject_Z (Qfloor pos))%Q in
      let vlo := nth lo sorted v0 in
      let vhi := nth (Nat.min (S lo) (length sorted - 1)) sorted v0 in
      Some (Qred (vlo + (vhi - vlo) * frac))
  end.

Record Describe := mkDescribe {
  d_count : nat;
  d_mean : option Q;
  d_std : option R;
  d_min : option Q;
  d_p25 : option Q;
  d_p50 : option Q;
  d_p75 : option Q;
  d_max : option Q
}.

(** One column of [df[...].describe()]. *)
Definition describe_column (col : list (option Q)) : Describe :=
  let obs := dropna col in
  let n := length obs in
  let sorted := sort_by Qle_bool obs in
  {| d_count := n;
     d_mean := if (1 <=? n)%nat then Some (Qmean obs) else None;
     d_std := if (2 <=? n)%nat
              then Some (sqrt (Q2R (sum_dev obs obs / inject_Z (Z.of_nat n - 1))))
              else None;
     d_min := hd_error sorted;
     d_p25 := quantile (1 # 4) obs;
     d_p50 := quantile (1 # 2) obs;
     d_p75 := quantile (3 # 4) obs;
     d_max := hd_error (rev sorted) |}.

Definition describe (df : list Row) : list Describe :=
  map (fun c => describe_column (column df c)) channels.

(** [Series.value_counts()]: the distinct values are tallied in order of
    first appearance ([bump], [tally]), then ordered by decreasing count,
    equal counts staying as the tally has them. *)
Fixpoint bump (k : string) (acc : list (string * nat)) : list (string * nat) :=
  match acc with
  | [] => [(k, 1%nat)]
  | (k', n) :: tl =>
      if String.eqb k k' then (k', S n) :: tl else (k', n) :: bump k tl
  end.

Definition tally (col : list string) : list (string * nat) :=
  fold_left (fun acc k => bump k acc) col [].

Definition value_counts (col : list (option string)) : list (string * nat) :=
  sort_by (fun a b => (snd b <=? snd a)%nat) (tally (dropna col)).

(** Lines 74 and 144. *)
Definition mood_counts (df : list Row) : Try (list (string * nat)) :=
  moods <- getitem_mood df ;;
  ret (value_counts moods).

(** The rows on which both columns hold a value. *)
Fixpoint complete_pairs (x y : list (option Q)) : list (Q * Q) :=
  match x, y with
  | Some a :: x', Some b :: y' => (a, b) :: complete_pairs x' y'
  | _ :: x', _ :: y' => complete_pairs x' y'
  | _, _ => []
  end.

(** Pearson's coefficient of two columns; [NaN] when the divisor is zero. *)
Definition pearson (x y : list (option Q)) : option R :=
  let ps := complete_pairs x y in
  let xs := map fst ps in
  let ys := map snd ps in
  let d := (sum_dev xs xs * sum_dev ys ys)%Q in
  if Qeq_bool d 0 then None
  else Some (Q2R (sum_dev xs ys) / sqrt (Q2R d))%R.

(** [df[...].corr()] *)
Definition corr (df : list Row) : list (list (option R)) :=
  map (fun a => map (fun b => pearson (column df a) (column df b)) channels)
      channels.

Definition corr_cell (df : list Row) (a b : Channel) : option R :=
  pearson (column df a) (column df b).

(** ** The script as a whole *)

(** The frame after the timestamp branch (lines 26-53).  The columns
    [seconds_from_start] and [hours_from_start] exist only when the
    [else] branch ran. *)
Record Timed := mkTimed {
  rows : list Row;
  is_unix : list bool;
  datetime : list (option Z);
  time_label : list (option string);
  seconds : option (list Z);
  hours : option (list spec_float)
}.

Definition frame_unix (df : list Row) : Timed :=
  let dt := datetime_filled df in
  {| rows := df;
     is_unix := map is_unix_timestamp df;
     datetime := dt;
     time_label := time_label_dates dt;
     seconds := None;
     hours := None |}.

Definition frame_uptime (df : list Row) : Timed :=
  {| rows := df;
     is_unix := map is_unix_timestamp df;
     datetime := datetime_uptime df;
     time_label := time_label_hours df;
     seconds := Some (seconds_from_start df);
     hours := Some (hours_from_start df) |}.

(** Lines 32-53. *)
Definition assign_time (df : list Row) : Timed :=
  if any_unix df then frame_unix df else frame_uptime df.

Record Smooth := mkSmooth {
  soil_smooth : list (option Q);
  light_smooth : list (option Q);
  temp_smooth : list (option Q);
  hum_smooth : list (option Q)
}.

(** Lines 56-59, one column after the other. *)
Definition smooth (df : list Row) : Try Smooth :=
  soil <- getitem df Soil ;;
  light <- getitem df Light ;;
  temp <- getitem df Temp ;;
  humidity <- getitem df Hum ;;
  ret {| soil_smooth := rolling_mean 5 1 soil;
         light_smooth := rolling_mean 5 1 light;
         temp_smooth := rolling_mean 5 1 temp;
         hum_smooth := rolling_mean 5 1 humidity |}.

(** [Series.min()] and [Series.max()] of a datetime column skip [NaT]. *)
Definition column_fold (f : Z -> Z -> Z) (col : list (option Z)) : option Z :=
  match dropna col with
  | [] => None
  | x :: tl => Some (fold_left f tl x)
  end.

Definition start_of (t : Timed) : option Z := column_fold Z.min (datetime t).
Definition finish_of (t : Timed) : option Z := column_fold Z.max (datetime t).

Definition duration_of (t : Timed) : option Z :=
  match start_of t, finish_of t with
  | Some a, Some b => Some (b - a)
  | _, _ => None
  end.

(** What the script has printed, section by section. *)
Inductive Printed :=
| MonitoringPeriod (first last elapsed : option Z) (readings : nat)
| SensorStatistics (table : list Describe).

(** Lines 62-70: printed before the moods are looked at. *)
Definition printed_before_moods (t : Timed) : list Printed :=
  [ MonitoringPeriod (start_of t) (finish_of t) (duration_of t)
                     (length (rows t));
    SensorStatistics (describe (rows t)) ].

Record Report := mkReport {
  start : option Z;
  finish : option Z;
  duration : option Z;
  reading_count : nat;
  statistics : list Describe;
  mood_distribution : list (string * nat);
  correlation : list (list (option R))
}.

(** Lines 62-79, the moods being counted. *)
Definition report (t : Timed) (dist : list (string * nat)) : Report :=
  {| start := start_of t;
     finish := finish_of t;
     duration := duration_of t;
     reading_count := length (rows t);
     statistics := describe (rows t);
     mood_distribution := dist;
     correlation := corr (rows t) |}.

Record Output := mkOutput {
  frame : Timed;
  smoothed : Smooth;
  summary : Report
}.

(** A run ends with everything computed, or with an exception and what
    had been printed until then. *)
Inductive Outcome :=
| Done (o : Output)
| Failed (e : Exn) (printed : list Printed).

(** A frame built from an empty dict has no column at all, so sorting it
    by ['timestamp'] fails on the missing key. *)
Definition analyse (logs : Logs) : Outcome :=
  match logs with
  | [] => Failed (KeyError "timestamp") []
  | _ :: _ =>
      let t := assign_time (sort_values logs) in
      match smooth (rows t) with
      | inl e => Failed e []
      | inr s =>
          match mood_counts (rows t) with
          | inl e => Failed e (printed_before_moods t)
          | inr dist =>
              Done {| frame := t; smoothed := s; summary := report t dist |}
          end
      end
  end.




(** ** Vocabulary of the statements *)


(** The order a comparison function stands for. *)
Definition ordered_by {A : Type} (before : A -> A -> bool) (a b : A) : Prop :=
  before a b = true.

(** Ascending raw timestamps, every row against every later one. *)
Definition ts_sorted (df : list Row) : Prop :=
  StronglySorted (fun a b => ts a <= ts b) df.


(** Every column the script reads is in the frame. *)
Definition has_columns (df : list Row) : bool :=
  forallb (fun c => has_column (field c) df) channels && has_column mood df.

(** The four rolling averages of a frame that has the four columns. *)
Definition smooth_columns (df : list Row) : Smooth :=
  {| soil_smooth := rolling_mean 5 1 (column df Soil);
     light_smooth := rolling_mean 5 1 (column df Light);
     temp_smooth := rolling_mean 5 1 (column df Temp);
     hum_smooth := rolling_mean 5 1 (column df Hum) |}.

(** The place of a channel in the order in which the script reads the
    sensor columns (lines 56-59). *)
Definition position (c : Channel) : nat :=
  match c with
  | Soil => 0
  | Light => 1
  | Temp => 2
  | Hum => 3
  end.

(** The smoothed column of a channel. *)
Definition smooth_column (s : Smooth) (c : Channel) : list (option Q) :=
  match c with
  | Soil => soil_smooth s
  | Light => light_smooth s
  | Temp => temp_smooth s
  | Hum => hum_smooth s
  end.







(** Sum of products of deviations from two given centres. *)
Definition dev_sum (mx my : Q) (ps : list (Q * Q)) : Q :=
  Qsum (map (fun p => ((fst p - mx) * (snd p - my))%Q) ps).




(** A complete entry under its id. *)
Definition reading (id : string) (t : Z) (s l c h : Q) (m : string) : Row :=
  (id, mkEntry t (Some s) (Some l) (Some c) (Some h) (Some m)).


(** Two readings, the first without its temperature. *)
Definition missing_temp : Logs :=
  [ ("r1", mkEntry 1700000000000 (Some 412%Q) (Some 130%Q) None (Some 50%Q)
                   (Some "happy"));
    reading "r2" 1700000060000 405 135 (43 # 2) 52 "thirsty" ]%string.


(** Two device uptimes around one real timestamp, in the order of the
    export. *)
Definition mixed_logs : Logs :=
  [ reading "a" 5000 400 120 21 48 "happy";
    reading "b" 1700000000000 410 125 (43 # 2) 50 "thirsty";
    reading "c" 6000 420 130 22 52 "happy" ]%string.


(** Six uptimes whose soil readings are 1 to 6. *)
Definition ramp_logs : Logs :=
  [ reading "a" 10 1 120 21 48 "happy";
    reading "b" 20 2 120 21 48 "happy";
    reading "c" 30 3 120 21 48 "happy";
    reading "d" 40 4 120 21 48 "happy";
    reading "e" 50 5 120 21 48 "happy";
    reading "f" 60 6 120 21 48 "happy" ]%string.



(** * Properties *)

(** ** Insertion sort: ordered, a permutation, and stable *)




Lemma Sorted_weaken {A : Type} (R R' : A -> A -> Prop) (l : list A) :
  (forall a b, R a b -> R' a b) -> Sorted R l -> Sorted R' l.
Proof.
  intros HR. induction 1 as [|a l _ IH Hhd]; constructor; [exact IH|].
  destruct Hhd; constructor. now apply HR.
Qed.

Section InsertionFacts.
Context {A : Type}.
Variable before : A -> A -> bool.
Hypothesis before_total : forall a b, before a b = false -> before b a = true.

Lemma insert_by_perm x l : Permutation (x :: l) (insert_by before x l).
Proof.
  induction l as [|y tl IH]; simpl; [reflexivity|].
  destruct (before x y); [reflexivity|].
  rewrite perm_swap. now constructor.
Qed.

Lemma sort_by_perm l : Permutation l (sort_by before l).
Proof.
  induction l as [|x tl IH]; simpl; [constructor|].
  rewrite <- insert_by_perm. now constructor.
Qed.

Lemma insert_by_HdRel a x l :
  (ordered_by before) a x -> HdRel (ordered_by before) a l -> HdRel (ordered_by before) a (insert_by before x l).
Proof.
  intros Hax Hal. destruct l as [|y tl]; simpl.
  - now constructor.
  - destruct (before x y); constructor; trivial.
    now inversion Hal.
Qed.

Lemma insert_by_sorted x l :
  Sorted (ordered_by before) l -> Sorted (ordered_by before) (insert_by before x l).
Proof.
  induction 1 as [|y tl Hs IH Hhd]; simpl.
  - repeat constructor.
  - destruct (before x y) eqn:E.
    + constructor; [now constructor|]. now constructor.
    + constructor; [exact IH|].
      apply insert_by_HdRel; [|exact Hhd].
      now apply before_total.
Qed.

Lemma sort_by_sorted l : Sorted (ordered_by before) (sort_by before l).
Proof.
  induction l as [|x tl IH]; simpl; [constructor|].
  now apply insert_by_sorted.
Qed.



End InsertionFacts.

(** ** Ordering by raw timestamp *)

#[local] Arguments sort_values : simpl never.

Lemma sort_values_perm df : Permutation df (sort_values df).
Proof. apply sort_by_perm. Qed.

Lemma sort_values_sorted df : ts_sorted (sort_values df).
Proof.
  unfold ts_sorted, sort_values.
  apply Sorted_StronglySorted.
  - intros a b c. lia.
  - assert (Sorted (fun a b => (ts a <=? ts b) = true)
                    (sort_by (fun a b => ts a <=? ts b) df)) as H.
    { apply sort_by_sorted. intros a b H.
      apply Z.leb_gt in H. apply Z.leb_le. lia. }
    revert H. apply Sorted_weaken. intros a b Hab. now apply Z.leb_le in Hab.
Qed.

Lemma existsb_perm {A : Type} (f : A -> bool) (l l' : list A) :
  Permutation l l' -> existsb f l = existsb f l'.
Proof.
  induction 1 as [|x l l' _ IH|x y l|l l' l'' _ IH1 _ IH2]; simpl.
  - reflexivity.
  - now rewrite IH.
  - now destruct (f x), (f y).
  - now rewrite IH1.
Qed.


Lemma has_columns_perm df df' :
  Permutation df df' -> has_columns df = has_columns df'.
Proof.
  intros P. unfold has_columns, has_column. simpl.
  now rewrite !(existsb_perm _ _ _ P).
Qed.

(** ** The classifier *)

(** C2: a row is classified as carrying a real (epoch) timestamp exactly
    when its timestamp is strictly greater than 10_000_000_000; the value
    10_000_000_000 itself is an uptime, 10_000_000_001 is a real one. *)
Theorem classifier_strict_threshold :
  (forall r : Row, is_unix_timestamp r = true <-> 10000000000 < ts r)
  /\ (forall id s l t h m,
         is_unix_timestamp (id, mkEntry 10000000000 s l t h m) = false)
  /\ (forall id s l t h m,
         is_unix_timestamp (id, mkEntry 10000000001 s l t h m) = true).
Proof.
  split; [|split; reflexivity].
  intros r. unfold is_unix_timestamp, THRESHOLD.
  rewrite Z.gtb_ltb. apply Z.ltb_lt.
Qed.

(** ** Filling the datetime column *)


Lemma datetime_unix_length df : length (datetime_unix df) = length df.
Proof. apply length_map. Qed.



Section Fill.
Context {A : Type}.
Implicit Types (col : list (option A)) (last : option A).

Lemma ffill_from_length last col : length (ffill_from last col) = length col.
Proof.
  revert last. induction col as [|[v|] tl IH]; intros; simpl; auto.
Qed.

Lemma bfill_length col : length (bfill col) = length col.
Proof. induction col as [|[v|] tl IH]; simpl; auto. Qed.

(** Missing cells in front of a run take [last]. *)
Lemma ffill_from_missing last n col :
  ffill_from last (repeat None n ++ col)
  = repeat last n ++ ffill_from last col.
Proof. induction n as [|n IH]; simpl; [reflexivity|]. now rewrite IH. Qed.


Lemma bfill_valid (l : list A) : bfill (map Some l) = map Some l.
Proof. induction l as [|v l IH]; simpl; [reflexivity|]. now rewrite IH. Qed.

(** Missing cells in front of a valid one take it. *)
Lemma bfill_missing n v col :
  bfill (repeat None n ++ Some v :: col)
  = repeat (Some v) n ++ Some v :: bfill col.
Proof.
  induction n as [|n IH]; simpl; [reflexivity|].
  rewrite IH. now destruct n.
Qed.



End Fill.







(** ** The ordered frame *)




Lemma StronglySorted_nth {A : Type} (R : A -> A -> Prop) (l : list A) i j x y :
  StronglySorted R l -> (i < j)%nat ->
  nth_error l i = Some x -> nth_error l j = Some y -> R x y.
Proof.
  intros Hs. revert i j. induction Hs as [|a l Hs IH Hall]; intros i j Hij Hi Hj.
  - now destruct i.
  - destruct j as [|j]; [lia|]. simpl in Hj. destruct i as [|i]; simpl in Hi.
    + injection Hi as ->. rewrite Forall_forall in Hall.
      apply Hall. eapply nth_error_In; eauto.
    + apply (IH i j); auto. lia.
Qed.


Lemma smooth_has_columns df :
  forallb (fun c => has_column (field c) df) channels = true ->
  smooth df = inr (smooth_columns df).
Proof.
  simpl. rewrite !andb_true_iff. intros (Hs & Hl & Ht & Hh & _).
  unfold smooth, getitem. now rewrite Hs, Hl, Ht, Hh.
Qed.

Lemma assign_time_rows df : rows (assign_time df) = df.
Proof. unfold assign_time. now destruct (any_unix df). Qed.

(** A batch that has every column runs to the end. *)
Lemma analyse_done logs :
  has_columns logs = true ->
  analyse logs
  = Done {| frame := assign_time (sort_values logs);
            smoothed := smooth_columns (sort_values logs);
            summary := report (assign_time (sort_values logs))
                              (value_counts
                                 (map (fun x => mood (snd x))
                                      (sort_values logs))) |}.
Proof.
  intros H. destruct logs as [|r logs]; [discriminate|].
  rewrite (has_columns_perm _ _ (sort_values_perm (r :: logs))) in H.
  unfold has_columns in H. apply andb_true_iff in H as [Hc Hm].
  unfold analyse. rewrite assign_time_rows, (smooth_has_columns _ Hc).
  unfold mood_counts, getitem_mood. now rewrite Hm.
Qed.

(** What a run that ends well has gone through. *)
Lemma analyse_Done_inv logs o :
  analyse logs = Done o ->
  logs <> []
  /\ frame o = assign_time (sort_values logs)
  /\ smooth (sort_values logs) = inr (smoothed o)
  /\ exists dist,
      mood_counts (sort_values logs) = inr dist
      /\ summary o = report (frame o) dist.
Proof.
  destruct logs as [|r logs]; [discriminate|].
  unfold analyse. rewrite assign_time_rows.
  destruct (smooth (sort_values (r :: logs))) as [e|s]; [discriminate|].
  destruct (mood_counts (sort_values (r :: logs))) as [e|dist]; [discriminate|].
  intros H. injection H as <-. cbn [frame smoothed summary].
  repeat split; [discriminate|]. now exists dist.
Qed.



(** ** Only device uptime *)

Lemma fold_min_spec (l : list Z) (x : Z) :
  let m := fold_left Z.min l x in
  (m = x \/ In m l) /\ m <= x /\ Forall (Z.le m) l.
Proof.
  revert x. induction l as [|y l IH]; intros x; simpl.
  - repeat split; [now left|lia|constructor].
  - destruct (IH (Z.min x y)) as ([E|Hin] & Hle & Hall).
    + repeat split; [|lia|constructor; [lia|exact Hall]].
      rewrite E. destruct (Z.min_spec x y) as [[_ ->]|[_ ->]]; auto.
    + repeat split; [auto|lia|constructor; [lia|exact Hall]].
Qed.







(** ** Rolling averages *)

Lemma last_n_push {A : Type} (w : nat) (pre : list A) (x : A) :
  last_n w (last_n w pre ++ [x]) = last_n w (pre ++ [x]).
Proof.
  unfold last_n.
  destruct (Nat.le_gt_cases (length pre) w) as [Hle|Hgt].
  - replace (length pre - w)%nat with 0%nat by lia. reflexivity.
  - rewrite !length_app, length_skipn. simpl.
    replace (length pre - (length pre - w) + 1 - w)%nat with 1%nat by lia.
    replace (length pre + 1 - w)%nat with (1 + (length pre - w))%nat by lia.
    rewrite <- skipn_skipn. f_equal.
    rewrite skipn_app.
    replace (length pre - w - length pre)%nat with 0%nat by lia.
    reflexivity.
Qed.

Lemma rolling_from_length w mp buf col :
  length (rolling_from w mp buf col) = length col.
Proof.
  revert buf. induction col as [|x tl IH]; intros; simpl; [reflexivity|].
  now rewrite IH.
Qed.

(** The window at row [j] holds the last [w] cells of the column up to
    and including row [j]. *)
Lemma rolling_from_windows w mp pre col :
  rolling_from w mp (last_n w pre) col
  = map (fun j => window_mean mp (last_n w (pre ++ firstn (S j) col)))
        (seq 0 (length col)).
Proof.
  revert pre. induction col as [|x tl IH]; intros pre; [reflexivity|].
  cbn [rolling_from length seq map firstn].
  rewrite last_n_push. f_equal.
  rewrite IH, <- seq_shift, map_map.
  apply map_ext. intros j. cbn [firstn].
  now rewrite <- app_assoc.
Qed.

Lemma rolling_mean_nth w mp col i :
  (i < length col)%nat ->
  nth_error (rolling_mean w mp col) i
  = Some (window_mean mp (last_n w (firstn (S i) col))).
Proof.
  intros Hi. unfold rolling_mean.
  change (@nil (option Q)) with (last_n w (@nil (option Q))).
  rewrite rolling_from_windows, nth_error_map, nth_error_seq.
  simpl. destruct (Nat.ltb_spec i (length col)); [reflexivity|lia].
Qed.




(** ** The mood distribution *)















(** ** The correlation matrix *)




Lemma combine_fst_snd (ps : list (Q * Q)) :
  combine (map fst ps) (map snd ps) = ps.
Proof.
  induction ps as [|[a b] ps IH]; simpl; [reflexivity|]. now rewrite IH.
Qed.


Lemma sum_dev_pairs ps :
  sum_dev (map fst ps) (map snd ps)
  = dev_sum (Qmean (map fst ps)) (Qmean (map snd ps)) ps.
Proof. unfold sum_dev, dev_sum. now rewrite combine_fst_snd. Qed.












(** ** Errors *)






(** ** Determinism *)





(** * The statements at concrete batches *)

Example mixed_logs_ordered :
  map fst (sort_values mixed_logs) = ["a"; "c"; "b"]%string.
Proof. reflexivity. Qed.

Example mixed_logs_datetimes :
  datetime (assign_time (sort_values mixed_logs))
  = [Some 1700000000000000000; Some 1700000000000000000;
     Some 1700000000000000000]
  /\ time_label (assign_time (sort_values mixed_logs))
     = [Some "2023-11-14 22:13"; Some "2023-11-14 22:13";
        Some "2023-11-14 22:13"]%string.
Proof. split; reflexivity. Qed.

(** The label follows the binary64 quotient: 180 seconds are printed as
    a tenth of an hour, 900 seconds as two tenths. *)
Example hours_label_rounding :
  map (fun s => hours_label (hours_of_seconds s)) [180; 900; 2700; 5400]
  = ["0.1h"; "0.2h"; "0.8h"; "1.5h"]%string.
Proof. reflexivity. Qed.










(** * Further properties of the script *)

(** ** The shape of the frame *)

Lemma seconds_from_start_length df :
  length (seconds_from_start df) = length df.
Proof.
  unfold seconds_from_start. destruct df as [|r df]; [reflexivity|].
  simpl. now rewrite length_map.
Qed.

Lemma assign_time_lengths df :
  length (is_unix (assign_time df)) = length df
  /\ length (datetime (assign_time df)) = length df
  /\ length (time_label (assign_time df)) = length df.
Proof.
  unfold assign_time. destruct (any_unix df).
  - cbn [frame_unix is_unix datetime time_label].
    unfold time_label_dates, datetime_filled, ffill.
    now rewrite !length_map, bfill_length, ffill_from_length,
      datetime_unix_length.
  - cbn [frame_uptime is_unix datetime time_label].
    unfold time_label_hours, hours_from_start, datetime_uptime.
    now rewrite !length_map, seconds_from_start_length.
Qed.

(** The averages that [smooth] returns are those of the four columns. *)
Lemma smooth_inr_column df s c :
  smooth df = inr s -> smooth_column s c = rolling_mean 5 1 (column df c).
Proof.
  unfold smooth, getitem. intros Hs.
  destruct (has_column (field Soil) df); [|discriminate].
  destruct (has_column (field Light) df); [|discriminate].
  destruct (has_column (field Temp) df); [|discriminate].
  destruct (has_column (field Hum) df); [|discriminate].
  injection Hs as <-. now destruct c.
Qed.

(** X1: a run that ends well gives every column of the frame, derived or
    smoothed, exactly one cell for each entry of the export, and prints
    that number as the number of readings. *)
Theorem one_cell_per_entry logs o :
  analyse logs = Done o ->
  length (rows (frame o)) = length logs
  /\ length (is_unix (frame o)) = length logs
  /\ length (datetime (frame o)) = length logs
  /\ length (time_label (frame o)) = length logs
  /\ (forall c, length (smooth_column (smoothed o) c) = length logs)
  /\ reading_count (summary o) = length logs.
Proof.
  intros H.
  destruct (analyse_Done_inv _ _ H) as (_ & Hf & Hs & dist & _ & Hr).
  pose proof (Permutation_length (sort_values_perm logs)) as Hlen.
  destruct (assign_time_lengths (sort_values logs)) as (H1 & H2 & H3).
  rewrite Hr. cbn [report reading_count]. rewrite Hf, assign_time_rows.
  split; [now symmetry|]. split; [congruence|]. split; [congruence|].
  split; [congruence|]. split; [|now symmetry].
  intros c. rewrite (smooth_inr_column _ _ c Hs).
  unfold rolling_mean, column.
  rewrite rolling_from_length, length_map. now symmetry.
Qed.

(** ** Rows with a real timestamp exist: what the fills produce *)

Lemma first_valid_split {A : Type} (col : list (option A)) v0 :
  In (Some v0) col ->
  exists n v rest, col = repeat None n ++ Some v :: rest.
Proof.
  induction col as [|[w|] col IH]; simpl; [contradiction| |].
  - intros _. now exists 0%nat, w, col.
  - intros [E|Hin]; [discriminate|].
    destruct (IH Hin) as (n & v & rest & ->).
    now exists (S n), v, rest.
Qed.

(** Behind a valid cell the forward fill leaves no missing cell, and
    every cell it writes is one the column already held. *)
Lemma ffill_from_some {A : Type} (v : A) rest :
  exists ws,
    ffill_from (Some v) rest = map Some ws
    /\ Forall (fun w => w = v \/ In (Some w) rest) ws.
Proof.
  revert v. induction rest as [|[w|] rest IH]; intros v; simpl.
  - now exists [].
  - destruct (IH w) as (ws & E & Hall). exists (w :: ws). rewrite E.
    split; [reflexivity|]. constructor; [right; now left|].
    revert Hall. apply Forall_impl. intros x [->|Hx]; right; auto.
  - destruct (IH v) as (ws & E & Hall). exists (v :: ws). rewrite E.
    split; [reflexivity|]. constructor; [now left|].
    revert Hall. apply Forall_impl. intros x [->|Hx]; auto.
Qed.

Lemma bfill_ffill_cells {A : Type} (col : list (option A)) v0 :
  In (Some v0) col ->
  exists ws,
    bfill (ffill col) = map Some ws
    /\ length ws = length col
    /\ Forall (fun w => In (Some w) col) ws.
Proof.
  intros Hin. destruct (first_valid_split _ _ Hin) as (n & v & rest & ->).
  unfold ffill. rewrite ffill_from_missing. simpl.
  destruct (ffill_from_some v rest) as (ws & E & Hall).
  rewrite E, bfill_missing, bfill_valid.
  exists (repeat v n ++ v :: ws).
  split; [now rewrite map_app, map_repeat|]. split.
  - pose proof (f_equal (@length (option A)) E) as Hl.
    rewrite ffill_from_length, length_map in Hl.
    rewrite !length_app, !repeat_length. simpl. lia.
  - assert (In (Some v) (repeat None n ++ Some v :: rest)) as Hv
        by (apply in_or_app; right; now left).
    apply Forall_app. split.
    + apply Forall_forall. intros x Hx. apply repeat_spec in Hx. now subst.
    + constructor; [exact Hv|].
      revert Hall. apply Forall_impl. intros x [->|Hx]; [exact Hv|].
      apply in_or_app. right. now right.
Qed.

Lemma datetime_unix_In df w :
  In (Some w) (datetime_unix df) <->
  exists a, In a df /\ is_unix_timestamp a = true /\ w = to_datetime_ms (ts a).
Proof.
  unfold datetime_unix. rewrite in_map_iff. split.
  - intros (a & E & Hin). destruct (is_unix_timestamp a) eqn:Ha; [|discriminate].
    injection E as <-. now exists a.
  - intros (a & Hin & Ha & ->). exists a. now rewrite Ha.
Qed.

(** The filled column, in any order of the rows: no cell is missing, and
    the cells are the converted timestamps of classified rows. *)
Lemma datetime_filled_cells df :
  any_unix df = true ->
  exists ws,
    datetime_filled df = map Some ws
    /\ length ws = length df
    /\ Forall (fun w => exists a, In a df /\ is_unix_timestamp a = true
                                  /\ w = to_datetime_ms (ts a)) ws.
Proof.
  intros Hany. apply existsb_exists in Hany as (a & Hin & Ha).
  assert (In (Some (to_datetime_ms (ts a))) (datetime_unix df)) as Hv
      by (apply datetime_unix_In; now exists a).
  destruct (bfill_ffill_cells _ _ Hv) as (ws & E & Hlen & Hall).
  exists ws. split; [exact E|]. split.
  - now rewrite Hlen, datetime_unix_length.
  - revert Hall. apply Forall_impl. intros w. apply datetime_unix_In.
Qed.

(** X2: when some row carries a real timestamp, whatever the order of the
    rows, the two fills leave no row without a datetime, and the datetime
    of every row is the converted timestamp of some row that carries a
    real one: no time is made up. *)
Theorem filled_datetimes_are_real_ones df i :
  any_unix df = true -> (i < length df)%nat ->
  exists a,
    In a df /\ is_unix_timestamp a = true
    /\ nth_error (datetime (assign_time df)) i
       = Some (Some (to_datetime_ms (ts a))).
Proof.
  intros Hany Hi. unfold assign_time. rewrite Hany. cbn [frame_unix datetime].
  destruct (datetime_filled_cells df Hany) as (ws & E & Hlen & Hall).
  rewrite E. destruct (nth_error ws i) as [w|] eqn:Hw.
  - rewrite Forall_forall in Hall.
    destruct (Hall w (nth_error_In _ _ Hw)) as (a & Hin & Ha & ->).
    exists a. rewrite nth_error_map, Hw. now repeat split.
  - apply nth_error_None in Hw. lia.
Qed.

(** ** The monitoring period *)

Lemma fold_max_spec (l : list Z) (x : Z) :
  let m := fold_left Z.max l x in
  (m = x \/ In m l) /\ x <= m /\ Forall (fun y => y <= m) l.
Proof.
  revert x. induction l as [|y l IH]; intros x; simpl.
  - repeat split; [now left|lia|constructor].
  - destruct (IH (Z.max x y)) as ([E|Hin] & Hle & Hall).
    + repeat split; [|lia|constructor; [lia|exact Hall]].
      rewrite E. destruct (Z.max_spec x y) as [[_ ->]|[_ ->]]; auto.
    + repeat split; [auto|lia|constructor; [lia|exact Hall]].
Qed.

Lemma In_dropna {A : Type} (col : list (option A)) x :
  In x (dropna col) <-> In (Some x) col.
Proof.
  induction col as [|[v|] col IH]; simpl.
  - tauto.
  - rewrite IH. split; intros [E|H]; auto; left; congruence.
  - rewrite IH. split; [auto|]. intros [E|H]; [discriminate|exact H].
Qed.

Lemma column_fold_some f col v :
  In (Some v) col -> exists a, column_fold f col = Some a.
Proof.
  intros H. apply In_dropna in H. unfold column_fold.
  destruct (dropna col); [contradiction|]. eexists. reflexivity.
Qed.

(** [min()] is the least valid cell of the column. *)
Lemma column_fold_min_spec col a :
  column_fold Z.min col = Some a ->
  In (Some a) col /\ forall x, In (Some x) col -> a <= x.
Proof.
  unfold column_fold. destruct (dropna col) as [|v l] eqn:E; [discriminate|].
  intros H. injection H as <-.
  destruct (fold_min_spec l v) as (Hin & Hle & Hall).
  assert (forall x, In x (v :: l) <-> In (Some x) col) as Hd
      by (intros x; rewrite <- E; apply In_dropna).
  split.
  - apply Hd. destruct Hin as [->|Hin]; [now left|now right].
  - intros x Hx. apply Hd in Hx as [<-|Hx]; [exact Hle|].
    rewrite Forall_forall in Hall. now apply Hall.
Qed.

(** [max()] is the greatest valid cell of the column. *)
Lemma column_fold_max_spec col b :
  column_fold Z.max col = Some b ->
  In (Some b) col /\ forall x, In (Some x) col -> x <= b.
Proof.
  unfold column_fold. destruct (dropna col) as [|v l] eqn:E; [discriminate|].
  intros H. injection H as <-.
  destruct (fold_max_spec l v) as (Hin & Hle & Hall).
  assert (forall x, In x (v :: l) <-> In (Some x) col) as Hd
      by (intros x; rewrite <- E; apply In_dropna).
  split.
  - apply Hd. destruct Hin as [->|Hin]; [now left|now right].
  - intros x Hx. apply Hd in Hx as [<-|Hx]; [exact Hle|].
    rewrite Forall_forall in Hall. now apply Hall.
Qed.

(** Both branches date every row of a frame that has rows. *)
Lemma assign_time_dated df :
  df <> [] ->
  exists w ws, datetime (assign_time df) = map Some (w :: ws).
Proof.
  intros Hne. unfold assign_time. destruct (any_unix df) eqn:Hany.
  - destruct (datetime_filled_cells df Hany) as (ws & E & Hlen & _).
    destruct ws as [|w ws]; [destruct df; [congruence|discriminate]|].
    now exists w, ws.
  - cbn [frame_uptime datetime]. unfold datetime_uptime.
    pose proof (seconds_from_start_length df) as Hlen.
    destruct (seconds_from_start df) as [|s ss];
      [destruct df; [congruence|discriminate]|].
    exists (FIXED_EPOCH + to_timedelta_s s),
      (map (fun s => FIXED_EPOCH + to_timedelta_s s) ss).
    cbn [map]. now rewrite map_map.
Qed.

(** X3: a run that ends well always has a monitoring period: its start
    and its end are datetimes of the frame, every datetime of the frame
    lies between them, and the duration is their difference, never
    negative. *)
Theorem monitoring_period_spans_datetimes logs o :
  analyse logs = Done o ->
  exists a b,
    start (summary o) = Some a /\ finish (summary o) = Some b
    /\ duration (summary o) = Some (b - a) /\ 0 <= b - a
    /\ In (Some a) (datetime (frame o)) /\ In (Some b) (datetime (frame o))
    /\ forall x, In (Some x) (datetime (frame o)) -> a <= x <= b.
Proof.
  intros H.
  destruct (analyse_Done_inv _ _ H) as (Hne & Hf & _ & dist & _ & Hr).
  assert (sort_values logs <> []) as Hne'.
  { intros E. pose proof (sort_values_perm logs) as P. rewrite E in P.
    now apply Permutation_sym, Permutation_nil in P. }
  destruct (assign_time_dated _ Hne') as (w & ws & Hd). rewrite <- Hf in Hd.
  assert (In (Some w) (datetime (frame o))) as Hw by (rewrite Hd; now left).
  destruct (column_fold_some Z.min _ _ Hw) as [a Ha].
  destruct (column_fold_some Z.max _ _ Hw) as [b Hb].
  destruct (column_fold_min_spec _ _ Ha) as [Ha1 Ha2].
  destruct (column_fold_max_spec _ _ Hb) as [Hb1 Hb2].
  exists a, b. rewrite Hr. cbn [report start finish duration].
  unfold duration_of, start_of, finish_of. rewrite Ha, Hb.
  repeat split; auto.
  specialize (Ha2 _ Hb1). lia.
Qed.







(** ** Only device uptime: the ordered frame *)



(** ** The order of the export *)

Lemma map_NoDup_inj {A B : Type} (f : A -> B) (l : list A) x y :
  NoDup (map f l) -> In x l -> In y l -> f x = f y -> x = y.
Proof.
  induction l as [|a l IH]; simpl; [contradiction|].
  intros Hnd. apply NoDup_cons_iff in Hnd as [Ha Hnd].
  intros [->|Hx] [->|Hy] E; auto.
  - exfalso. apply Ha. rewrite E. now apply in_map.
  - exfalso. apply Ha. rewrite <- E. now apply in_map.
Qed.

(** There is one way to order rows whose timestamps are all different. *)
Lemma ts_sorted_unique l1 : forall l2,
  ts_sorted l1 -> ts_sorted l2 -> Permutation l1 l2 ->
  NoDup (map ts l1) -> l1 = l2.
Proof.
  induction l1 as [|a l1 IH]; intros l2 H1 H2 P Hnd.
  - now apply Permutation_nil in P.
  - destruct l2 as [|b l2];
      [now apply Permutation_sym, Permutation_nil in P|].
    assert (a = b) as ->.
    { apply (map_NoDup_inj ts (a :: l1)); [exact Hnd|now left| |].
      - apply (Permutation_in _ (Permutation_sym P)). now left.
      - apply StronglySorted_inv in H1 as [_ Ha].
        apply StronglySorted_inv in H2 as [_ Hb].
        rewrite Forall_forall in Ha, Hb.
        assert (In b (a :: l1)) as [->|Hb1]
            by (apply (Permutation_in _ (Permutation_sym P)); now left);
          [reflexivity|].
        assert (In a (b :: l2)) as [->|Ha2]
            by (apply (Permutation_in _ P); now left);
          [reflexivity|].
        specialize (Ha _ Hb1). specialize (Hb _ Ha2). simpl in *. lia. }
    f_equal. apply IH.
    + now apply StronglySorted_inv in H1.
    + now apply StronglySorted_inv in H2.
    + now apply Permutation_cons_inv in P.
    + simpl in Hnd. now apply NoDup_cons_iff in Hnd.
Qed.

Lemma analyse_ordered logs :
  logs <> [] ->
  analyse logs
  = let t := assign_time (sort_values logs) in
    match smooth (rows t) with
    | inl e => Failed e []
    | inr s =>
        match mood_counts (rows t) with
        | inl e => Failed e (printed_before_moods t)
        | inr dist =>
            Done {| frame := t; smoothed := s; summary := report t dist |}
        end
    end.
Proof. destruct logs; [congruence|reflexivity]. Qed.

(** X8: when the timestamps of the export are all different, the order
    in which the export lists its entries has no effect: any reordering
    of the entries gives the same outcome. *)
Theorem export_order_is_irrelevant logs logs' :
  Permutation logs logs' -> NoDup (map ts logs) ->
  analyse logs = analyse logs'.
Proof.
  intros P Hnd.
  destruct logs as [|r logs].
  { apply Permutation_nil in P. now subst. }
  assert (logs' <> []) as Hne'.
  { intros ->. now apply Permutation_sym, Permutation_nil in P. }
  rewrite !analyse_ordered by (assumption || discriminate).
  assert (sort_values (r :: logs) = sort_values logs') as ->;
    [|reflexivity].
  apply ts_sorted_unique; try apply sort_values_sorted.
  - rewrite <- (sort_values_perm (r :: logs)), <- (sort_values_perm logs').
    exact P.
  - eapply Permutation_NoDup; [|exact Hnd].
    apply Permutation_map, sort_values_perm.
Qed.

(** ** Rolling averages: missing cells and bounds *)

(** The cells of rows [k] to [n - 1]. *)
Lemma In_skipn_firstn {A : Type} (l : list A) k n c :
  In c (skipn k (firstn n l)) <->
  exists j, (k <= j < n)%nat /\ nth_error l j = Some c.
Proof.
  split.
  - intros H. apply In_nth_error in H as [j Hj].
    rewrite nth_error_skipn, nth_error_firstn in Hj.
    destruct (Nat.ltb_spec (k + j) n); [|discriminate].
    exists (k + j)%nat. split; [lia|exact Hj].
  - intros (j & Hj & Hc). apply (nth_error_In _ (j - k)).
    rewrite nth_error_skipn, nth_error_firstn.
    replace (k + (j - k))%nat with j by lia.
    destruct (Nat.ltb_spec j n); [exact Hc|lia].
Qed.

(** The window of row [i] holds the cells of rows [i - 4] to [i]. *)
Lemma window_cells (col : list (option Q)) i c :
  (i < length col)%nat ->
  (In c (last_n 5 (firstn (S i) col)) <->
   exists j, (i - 4 <= j <= i)%nat /\ nth_error col j = Some c).
Proof.
  intros Hi. unfold last_n. rewrite length_firstn.
  replace (Nat.min (S i) (length col) - 5)%nat with (i - 4)%nat by lia.
  rewrite In_skipn_firstn. split; intros (j & Hj & Hc); exists j; split;
    auto; lia.
Qed.

Lemma dropna_nil {A : Type} (col : list (option A)) :
  dropna col = [] <-> forall c, In c col -> c = None.
Proof.
  induction col as [|[v|] col IH]; simpl.
  - split; [intros _ c []|reflexivity].
  - split; [discriminate|]. intros H. specialize (H (Some v) (or_introl eq_refl)).
    discriminate.
  - rewrite IH. split; [intros H c [<-|Hc]; auto|intros H c Hc; auto].
Qed.

(** X9: the rolling average of a row is NaN exactly when the row and the
    four rows before it all miss the value: one valid reading among the
    last five is enough for an average. *)
Theorem rolling_mean_nan_iff_window_empty (col : list (option Q)) i :
  (i < length col)%nat ->
  (nth_error (rolling_mean 5 1 col) i = Some None <->
   forall j, (i - 4 <= j <= i)%nat -> nth_error col j = Some None).
Proof.
  intros Hi. rewrite (rolling_mean_nth _ _ _ _ Hi).
  unfold window_mean.
  set (w := last_n 5 (firstn (S i) col)).
  assert (dropna w = [] <->
          forall j, (i - 4 <= j <= i)%nat -> nth_error col j = Some None) as Hw.
  { rewrite dropna_nil. split.
    - intros H j Hj.
      destruct (nth_error col j) as [c|] eqn:Hc;
        [|apply nth_error_None in Hc; lia].
      f_equal. apply H. apply (window_cells col i c Hi). now exists j.
    - intros H c Hc. apply (window_cells col i c Hi) in Hc as (j & Hj & Hc).
      rewrite (H j Hj) in Hc. now injection Hc as <-. }
  rewrite <- Hw. destruct (dropna w) as [|x l]; simpl.
  - split; reflexivity.
  - split; [discriminate|discriminate].
Qed.

Lemma Qsum_bounds lo hi (l : list Q) :
  (forall x, In x l -> lo <= x /\ x <= hi)%Q ->
  (lo * inject_Z (Z.of_nat (length l)) <= Qsum l
   /\ Qsum l <= hi * inject_Z (Z.of_nat (length l)))%Q.
Proof.
  induction l as [|x l IH]; intros H.
  - cbn [length Qsum fold_right Z.of_nat]. change (inject_Z 0) with 0%Q.
    split; Lqa.lra.
  - destruct IH as [IH1 IH2]; [intros y Hy; apply H; now right|].
    destruct (H x (or_introl eq_refl)) as [Hx1 Hx2].
    cbn [length]. change (Qsum (x :: l)) with (x + Qsum l)%Q.
    rewrite Nat2Z.inj_succ, <- Z.add_1_r, inject_Z_plus.
    change (inject_Z 1) with 1%Q.
    split; Lqa.lra.
Qed.

(** The mean of a list lies between any bounds of its elements. *)
Lemma Qmean_bounds lo hi (l : list Q) :
  l <> [] ->
  (forall x, In x l -> lo <= x /\ x <= hi)%Q ->
  (lo <= Qmean l /\ Qmean l <= hi)%Q.
Proof.
  intros Hne H. destruct (Qsum_bounds lo hi l H) as [H1 H2].
  assert (0 < inject_Z (Z.of_nat (length l)))%Q as Hn.
  { destruct l; [congruence|]. change 0%Q with (inject_Z 0).
    rewrite <- Zlt_Qlt. cbn [length]. lia. }
  unfold Qmean. rewrite Qred_correct. split.
  - now apply Qle_shift_div_l.
  - now apply Qle_shift_div_r.
Qed.


(** X11: a channel that reads the same value in every row is smoothed to
    that value in every row. *)
Theorem constant_channel_is_unchanged df s c v i :
  smooth df = inr s ->
  (forall cell, In cell (column df c) -> cell = Some v) ->
  (i < length df)%nat ->
  exists q, nth_error (smooth_column s c) i = Some (Some q) /\ (q == v)%Q.
Proof.
  intros Hs Hc Hi. rewrite (smooth_inr_column _ _ c Hs).
  assert (i < length (column df c))%nat as Hi'
      by (unfold column; now rewrite length_map).
  rewrite (rolling_mean_nth _ _ _ _ Hi'). unfold window_mean.
  set (w := last_n 5 (firstn (S i) (column df c))).
  assert (forall cell, In cell w -> cell = Some v) as Hw.
  { intros cell H. apply (window_cells _ i _ Hi') in H as (j & _ & Hj).
    apply Hc. eapply nth_error_In; eauto. }
  destruct (dropna w) as [|x l] eqn:Ew.
  - exfalso. rewrite dropna_nil in Ew.
    destruct (nth_error (column df c) i) as [cell|] eqn:Hcell;
      [|apply nth_error_None in Hcell; lia].
    assert (In cell w) as Hin
        by (apply (window_cells _ i _ Hi'); exists i; split; [lia|exact Hcell]).
    rewrite (Hw _ Hin) in Hin. specialize (Ew _ Hin). discriminate.
  - simpl. eexists. split; [reflexivity|].
    destruct (Qmean_bounds v v (x :: l)) as [H1 H2]; [discriminate| |].
    + intros y Hy. rewrite <- Ew in Hy. apply In_dropna in Hy.
      specialize (Hw _ Hy). injection Hw as ->. split; apply Qle_refl.
    + now apply Qle_antisym.
Qed.

(** ** The mood distribution: totals *)







(** ** Missing columns *)

Lemma position_channels c : nth_error channels (position c) = Some c.
Proof. now destruct c. Qed.


(** ** The describe table *)

Lemma Qle_bool_total a b : Qle_bool a b = false -> Qle_bool b a = true.
Proof.
  intros H. apply Qle_bool_iff. apply Qlt_le_weak, Qnot_le_lt.
  intros Hab. apply Qle_bool_iff in Hab. congruence.
Qed.

Lemma sort_Qle_sorted (obs : list Q) :
  StronglySorted Qle (sort_by Qle_bool obs).
Proof.
  apply Sorted_StronglySorted; [exact Qle_trans|].
  apply (Sorted_weaken (ordered_by Qle_bool)).
  - intros a b H. now apply Qle_bool_iff.
  - apply sort_by_sorted, Qle_bool_total.
Qed.




Lemma frac_bounds (x : Q) :
  (0 <= x - inject_Z (Qfloor x) /\ x - inject_Z (Qfloor x) <= 1)%Q.
Proof.
  pose proof (Qfloor_le x) as H1. pose proof (Qlt_floor x) as H2.
  rewrite inject_Z_plus in H2. change (inject_Z 1) with 1%Q in H2.
  split; Lqa.lra.
Qed.



(** ** The correlation matrix and the order of the rows *)




Lemma combine_diag (xs : list Q) : combine xs xs = map (fun a => (a, a)) xs.
Proof. induction xs as [|a xs IH]; simpl; [reflexivity|]. now rewrite IH. Qed.






(** ** The range of a correlation *)

Lemma Qsquare_nonneg (a : Q) : (0 <= a * a)%Q.
Proof. Lqa.nra. Qed.

(** One more pair keeps the inequality of Cauchy and Schwarz. *)
Lemma cauchy_schwarz_step (A B C x y : Q) :
  (0 <= A -> 0 <= B -> C * C <= A * B ->
   (C + x * y) * (C + x * y) <= (A + x * x) * (B + y * y))%Q.
Proof.
  intros HA HB HC.
  assert (0 <= A * (y * y) + B * (x * x) - 2 * C * (x * y))%Q as H.
  { destruct (Qeq_dec A 0) as [E|E].
    - assert (C == 0)%Q as EC.
      { rewrite E in HC. destruct (Q_dec C 0) as [[Hc|Hc]|Hc]; [| |exact Hc];
          exfalso; assert (0 < C * C)%Q by Lqa.nra; Lqa.lra. }
      rewrite E, EC. pose proof (Qsquare_nonneg x).
      assert (0 <= B * (x * x))%Q by (now apply Qmult_le_0_compat).
      Lqa.lra.
    - assert (0 < A)%Q as HA'.
      { apply Qle_lteq in HA as [H|H]; [exact H|].
        exfalso. apply E. now symmetry. }
      assert (0 <= A * (A * (y * y) + B * (x * x) - 2 * C * (x * y)))%Q as H.
      { setoid_replace (A * (A * (y * y) + B * (x * x) - 2 * C * (x * y)))%Q
          with ((A * y - C * x) * (A * y - C * x)
                + (A * B - C * C) * (x * x))%Q by ring.
        pose proof (Qsquare_nonneg (A * y - C * x)).
        assert (0 <= (A * B - C * C) * (x * x))%Q
          by (apply Qmult_le_0_compat; [Lqa.lra|apply Qsquare_nonneg]).
        Lqa.lra. }
      set (t := (A * (y * y) + B * (x * x) - 2 * C * (x * y))%Q) in *.
      destruct (Qlt_le_dec t 0) as [Ht|Ht]; [|exact Ht].
      exfalso. assert (A * t < 0)%Q by Lqa.nra. Lqa.lra. }
  setoid_replace ((A + x * x) * (B + y * y))%Q
    with ((C + x * y) * (C + x * y) + (A * B - C * C)
          + (A * (y * y) + B * (x * x) - 2 * C * (x * y)))%Q by ring.
  Lqa.lra.
Qed.

(** The inequality of Cauchy and Schwarz for the deviations of a table
    of pairs from any two centres. *)
Lemma cauchy_schwarz_dev mx my (ps : list (Q * Q)) :
  let A := dev_sum mx mx (map (fun p => (fst p, fst p)) ps) in
  let B := dev_sum my my (map (fun p => (snd p, snd p)) ps) in
  let C := dev_sum mx my ps in
  (0 <= A /\ 0 <= B /\ C * C <= A * B)%Q.
Proof.
  unfold dev_sum. induction ps as [|[a b] ps (HA & HB & HC)]; simpl.
  - repeat split; Lqa.lra.
  - pose proof (Qsquare_nonneg (a - mx)). pose proof (Qsquare_nonneg (b - my)).
    split; [Lqa.lra|]. split; [Lqa.lra|].
    pose proof (cauchy_schwarz_step _ _ _ (a - mx) (b - my) HA HB HC) as H1.
    set (A := Qsum (map (fun p : Q * Q => (fst p - mx) * (snd p - mx))
                        (map (fun p : Q * Q => (fst p, fst p)) ps))%Q) in *.
    set (B := Qsum (map (fun p : Q * Q => (fst p - my) * (snd p - my))
                        (map (fun p : Q * Q => (snd p, snd p)) ps))%Q) in *.
    set (C := Qsum (map (fun p : Q * Q => (fst p - mx) * (snd p - my)) ps)%Q)
      in *.
    setoid_replace ((a - mx) * (b - my) + C)%Q
      with (C + (a - mx) * (b - my))%Q by ring.
    setoid_replace ((a - mx) * (a - mx) + A)%Q
      with (A + (a - mx) * (a - mx))%Q by ring.
    setoid_replace ((b - my) * (b - my) + B)%Q
      with (B + (b - my) * (b - my))%Q by ring.
    exact H1.
Qed.

Lemma sum_dev_self (xs : list Q) :
  sum_dev xs xs = dev_sum (Qmean xs) (Qmean xs) (map (fun a => (a, a)) xs).
Proof. unfold sum_dev, dev_sum. now rewrite combine_diag. Qed.

(** X16: a cell of the correlation matrix is NaN or a number between -1
    and 1. *)
Theorem correlation_within_unit_interval df a b r :
  corr_cell df a b = Some r -> (-1 <= r <= 1)%R.
Proof.
  unfold corr_cell, pearson.
  set (ps := complete_pairs (column df a) (column df b)).
  set (sx := sum_dev (map fst ps) (map fst ps)).
  set (sy := sum_dev (map snd ps) (map snd ps)).
  set (sxy := sum_dev (map fst ps) (map snd ps)).
  assert (0 <= sx /\ 0 <= sy /\ sxy * sxy <= sx * sy)%Q as (HA & HB & HC).
  { unfold sx, sy, sxy. rewrite !sum_dev_self, sum_dev_pairs, !map_map.
    apply (cauchy_schwarz_dev (Qmean (map fst ps)) (Qmean (map snd ps)) ps). }
  destruct (Qeq_bool (sx * sy) 0) eqn:E; [discriminate|].
  intros H. injection H as <-.
  assert (~ sx * sy == 0)%Q as Hne
      by (intros H; apply Qeq_bool_iff in H; congruence).
  assert (0 <= sx * sy)%Q as Hd0 by now apply Qmult_le_0_compat.
  assert (0 < Q2R (sx * sy))%R as Hd.
  { replace 0%R with (Q2R 0) by (unfold Q2R; simpl; lra).
    apply Qlt_Rlt. apply Qle_lteq in Hd0 as [H|H]; [exact H|].
    exfalso. apply Hne. now symmetry. }
  apply Qle_Rle in HC. rewrite (Q2R_mult sxy sxy) in HC.
  set (n := Q2R sxy) in *. set (d := Q2R (sx * sy)) in *.
  pose proof (sqrt_lt_R0 d Hd) as Hs.
  pose proof (sqrt_sqrt d (Rlt_le _ _ Hd)) as Hss.
  set (s := sqrt d) in *.
  assert (n <= s)%R as Hn2.
  { destruct (Rle_lt_dec n s) as [H|H]; [exact H|exfalso].
    assert (s * s < n * n)%R by (apply Rmult_le_0_lt_compat; lra). lra. }
  assert (- s <= n)%R as Hn1.
  { destruct (Rle_lt_dec (- s) n) as [H|H]; [exact H|exfalso].
    assert (s * s < - n * - n)%R by (apply Rmult_le_0_lt_compat; lra).
    replace (- n * - n)%R with (n * n)%R in * by ring. lra. }
  split.
  - apply Rmult_le_reg_r with s; [exact Hs|].
    unfold Rdiv. rewrite Rmult_assoc, Rinv_l by lra. lra.
  - apply Rmult_le_reg_r with s; [exact Hs|].
    unfold Rdiv. rewrite Rmult_assoc, Rinv_l by lra. lra.
Qed.

(** ** The quartiles *)

Lemma sorted_nth_le (s : list Q) d i j :
  StronglySorted Qle s -> (i <= j < length s)%nat ->
  (nth i s d <= nth j s d)%Q.
Proof.
  intros Hs [Hij Hj].
  apply Nat.lt_eq_cases in Hij as [Hij| ->]; [|apply Qle_refl].
  apply (StronglySorted_nth Qle s i j); auto; apply nth_error_nth'; lia.
Qed.

(** The row of the ordered observations that a quantile starts from. *)
Lemma quantile_row (n : nat) q :
  (1 <= n)%nat -> (0 <= q)%Q -> (q <= 1)%Q ->
  (0 <= Qfloor (inject_Z (Z.of_nat n - 1) * q) <= Z.of_nat n - 1)%Z.
Proof.
  intros Hn H0 H1.
  assert (0 <= inject_Z (Z.of_nat n - 1))%Q as HN
      by (rewrite <- (Zle_Qle 0); lia).
  split.
  - change 0%Z with (Qfloor 0). apply Qfloor_resp_le.
    now apply Qmult_le_0_compat.
  - rewrite <- (Qfloor_Z (Z.of_nat n - 1)) at 2. apply Qfloor_resp_le.
    Lqa.nra.
Qed.

(** A quantile does not decrease with its level. *)
Lemma quantile_monotone q1 q2 (obs : list Q) :
  obs <> [] -> (0 <= q1)%Q -> (q1 <= q2)%Q -> (q2 <= 1)%Q ->
  exists v1 v2,
    quantile q1 obs = Some v1 /\ quantile q2 obs = Some v2 /\ (v1 <= v2)%Q.
Proof.
  intros Hne H0 H12 H1. unfold quantile.
  pose proof (sort_by_perm Qle_bool obs) as P.
  pose proof (sort_Qle_sorted obs) as Hs.
  destruct (sort_by Qle_bool obs) as [|v0 l] eqn:E.
  { apply Permutation_sym, Permutation_nil in P. contradiction. }
  set (s := v0 :: l) in *. set (n := length s).
  assert (1 <= n)%nat as Hn by (unfold n, s; simpl; lia).
  eexists. eexists. split; [reflexivity|]. split; [reflexivity|].
  rewrite !Qred_correct.
  set (N := inject_Z (Z.of_nat n - 1)).
  assert (0 <= N)%Q as HN by (unfold N; rewrite <- (Zle_Qle 0); lia).
  assert (N * q1 <= N * q2)%Q as Hpos by Lqa.nra.
  destruct (quantile_row n q1 Hn H0 ltac:(Lqa.lra)) as [Ha1 Ha2].
  destruct (quantile_row n q2 Hn ltac:(Lqa.lra) H1) as [Hb1 Hb2].
  pose proof (Qfloor_resp_le _ _ Hpos) as Hk.
  fold N in Ha1, Ha2, Hb1, Hb2.
  destruct (frac_bounds (N * q1)) as [Hf1 Hf1'].
  destruct (frac_bounds (N * q2)) as [Hf2 Hf2'].
  set (z1 := Qfloor (N * q1)) in *. set (z2 := Qfloor (N * q2)) in *.
  set (k1 := Z.to_nat z1). set (k2 := Z.to_nat z2).
  assert (k1 <= k2 /\ k2 <= n - 1)%nat as [Hk12 Hk2] by (unfold k1, k2; lia).
  set (g := fun k => nth k s v0).
  assert (forall i j, (i <= j <= n - 1)%nat -> g i <= g j)%Q as Hg
      by (intros i j Hij; apply sorted_nth_le; [exact Hs|fold n; lia]).
  change (g k1 + (g (Nat.min (S k1) (n - 1)) - g k1) * (N * q1 - inject_Z z1)
          <= g k2 + (g (Nat.min (S k2) (n - 1)) - g k2) * (N * q2 - inject_Z z2))%Q.
  pose proof (Hg k1 (Nat.min (S k1) (n - 1)) ltac:(lia)) as G1.
  pose proof (Hg k2 (Nat.min (S k2) (n - 1)) ltac:(lia)) as G2.
  destruct (Nat.eq_dec k1 k2) as [Ek|Ek].
  - assert (z1 = z2) as Ez by (unfold k1, k2 in Ek; lia).
    rewrite <- Ek, <- Ez in *. Lqa.nra.
  - pose proof (Hg (Nat.min (S k1) (n - 1)) k2 ltac:(lia)) as G3.
    Lqa.nra.
Qed.

(** X17: the three quartiles of the table of a column are in order: the
    25% figure is at most the 50% figure, which is at most the 75%
    figure. *)
Theorem quartiles_in_order (col : list (option Q)) :
  dropna col <> [] ->
  exists p25 p50 p75,
    d_p25 (describe_column col) = Some p25
    /\ d_p50 (describe_column col) = Some p50
    /\ d_p75 (describe_column col) = Some p75
    /\ (p25 <= p50 /\ p50 <= p75)%Q.
Proof.
  intros Hne. unfold describe_column. cbn [d_p25 d_p50 d_p75].
  destruct (quantile_monotone (1 # 4) (1 # 2) _ Hne)
    as (a & b & Ea & Eb & Hab); try (unfold Qle; simpl; lia).
  destruct (quantile_monotone (1 # 2) (3 # 4) _ Hne)
    as (b' & c & Eb' & Ec & Hbc); try (unfold Qle; simpl; lia).
  rewrite Eb in Eb'. injection Eb' as <-.
  exists a, b, c. now rewrite Ea, Eb, Ec.
Qed.

(** * The further properties at concrete batches *)

(** The mixed batch has three rows in every column. *)
Lemma one_cell_per_entry_witness :
  exists o,
    analyse mixed_logs = Done o
    /\ length (datetime (frame o)) = 3%nat
    /\ length (smooth_column (smoothed o) Hum) = 3%nat
    /\ reading_count (summary o) = 3%nat.
Proof.
  eexists. split; [apply (analyse_done mixed_logs eq_refl)|].
  destruct (one_cell_per_entry mixed_logs _ (analyse_done mixed_logs eq_refl))
    as (_ & _ & Hd & _ & Hs & Hn).
  split; [exact Hd|]. split; [exact (Hs Hum)|exact Hn].
Defined.

(** The first row of the mixed batch as exported, an uptime, is dated. *)
Lemma filled_datetimes_are_real_ones_witness :
  any_unix mixed_logs = true /\ (0 < length mixed_logs)%nat
  /\ exists a,
      In a mixed_logs /\ is_unix_timestamp a = true
      /\ nth_error (datetime (assign_time mixed_logs)) 0
         = Some (Some (to_datetime_ms (ts a))).
Proof.
  split; [reflexivity|]. split; [simpl; lia|].
  apply (filled_datetimes_are_real_ones mixed_logs 0); [reflexivity|simpl; lia].
Defined.

(** The period of the mixed batch. *)
Lemma monitoring_period_spans_datetimes_witness :
  exists o a b,
    analyse mixed_logs = Done o
    /\ start (summary o) = Some a /\ finish (summary o) = Some b
    /\ duration (summary o) = Some (b - a) /\ 0 <= b - a.
Proof.
  eexists.
  destruct (monitoring_period_spans_datetimes mixed_logs _
              (analyse_done mixed_logs eq_refl))
    as (a & b & Ha & Hb & Hd & Hpos & _).
  exists a, b. split; [apply (analyse_done mixed_logs eq_refl)|].
  repeat split; assumption.
Defined.





(** The mixed batch read backward. *)
Lemma export_order_is_irrelevant_witness :
  Permutation mixed_logs (rev mixed_logs) /\ NoDup (map ts mixed_logs)
  /\ analyse mixed_logs = analyse (rev mixed_logs).
Proof.
  assert (NoDup (map ts mixed_logs)) as Hnd.
  { repeat constructor; simpl; intros H;
      repeat destruct H as [H|H]; try discriminate H; exact H. }
  split; [apply Permutation_rev|]. split; [exact Hnd|].
  apply export_order_is_irrelevant; [apply Permutation_rev|exact Hnd].
Defined.

(** A lone missing temperature gives no average on its row. *)
Lemma rolling_mean_nan_iff_window_empty_witness :
  (0 < length (column missing_temp Temp))%nat
  /\ nth_error (rolling_mean 5 1 (column missing_temp Temp)) 0 = Some None.
Proof.
  split; [simpl; lia|].
  apply (proj2 (rolling_mean_nan_iff_window_empty
                  (column missing_temp Temp) 0 ltac:(simpl; lia))).
  intros j Hj. assert (j = 0%nat) as -> by lia. reflexivity.
Defined.


(** The light level of the ramp is 120 in every row. *)
Lemma constant_channel_is_unchanged_witness :
  smooth ramp_logs = inr (smooth_columns ramp_logs)
  /\ (3 < length ramp_logs)%nat
  /\ exists q,
      nth_error (smooth_column (smooth_columns ramp_logs) Light) 3
      = Some (Some q) /\ (q == 120)%Q.
Proof.
  split; [reflexivity|]. split; [simpl; lia|].
  apply (constant_channel_is_unchanged ramp_logs _ Light 120%Q 3%nat);
    [reflexivity| |simpl; lia].
  intros cell H. simpl in H.
  repeat destruct H as [H|H]; try contradiction; now subst.
Defined.





(** Soil and light of the mixed batch. *)
Lemma correlation_within_unit_interval_witness :
  exists r,
    corr_cell mixed_logs Soil Light = Some r /\ (-1 <= r <= 1)%R.
Proof.
  eexists. split; [reflexivity|].
  apply (correlation_within_unit_interval mixed_logs Soil Light).
  reflexivity.
Defined.

(** The quartiles of the soil readings of the ramp. *)
Lemma quartiles_in_order_witness :
  dropna (column ramp_logs Soil) <> []
  /\ exists p25 p50 p75,
      d_p25 (describe_column (column ramp_logs Soil)) = Some p25
      /\ d_p50 (describe_column (column ramp_logs Soil)) = Some p50
      /\ d_p75 (describe_column (column ramp_logs Soil)) = Some p75
      /\ (p25 <= p50 /\ p50 <= p75)%Q.
Proof.
  split; [discriminate|].
  apply (quartiles_in_order (column ramp_logs Soil)). discriminate.
Defined.

(** The table of the readings 3, 1, 2, 6, 5, 4. *)
Example describe_six_readings :
  let d := describe_column (map Some [3; 1; 2; 6; 5; 4]%Q) in
  d_count d = 6%nat /\ d_mean d = Some (7 # 2) /\ d_min d = Some 1%Q
  /\ d_p25 d = Some (9 # 4) /\ d_p50 d = Some (7 # 2)
  /\ d_p75 d = Some (19 # 4) /\ d_max d = Some 6%Q.
Proof. repeat split. Qed.
